(** * transmission-exporter: the collector package (collector/collector.go)

    Shallow embedding of [TransmissionCollector]: its descriptors, the
    [Describe] and [Collect] methods of the prometheus.Collector interface
    and the three sub-collections run by [Collect]. *)

From Stdlib Require Import ZArith List String Bool Lia Permutation.
From Stdlib Require Import SpecFloat.
Import ListNotations.
Open Scope string_scope.

(** ** Go values *)

(** [float64] as the IEEE-754 binary64 format of the Standard Library
    specification ([prec = 53], [emax = 1024]). *)
Definition float64 := spec_float.

(** Go's conversion [float64(x)] of an integer: round to nearest, ties to
    even, into binary64. *)
Definition float64_of_Z (z : Z) : float64 :=
  binary_normalize 53 1024 z 0 false.

Definition is_finite (f : float64) : bool :=
  match f with
  | S754_zero _ | S754_finite _ _ _ => true
  | _ => false
  end.

(** Range of a Go [int64] (and of [int] on 64-bit platforms). *)
Definition int64_ok (z : Z) : Prop := (- 2 ^ 63 <= z < 2 ^ 63)%Z.

Definition error := string.

(** Results [(v, err)] of a Go call returning a value and an error. *)
Inductive result (A : Type) : Type :=
| Ok (a : A)
| Err (e : error).
Arguments Ok {A} a.
Arguments Err {A} e.

(** ** context.Context *)

Inductive Context : Type :=
| Background
| WithDeadline (parent : Context) (deadline : Z).

Fixpoint Deadline (ctx : Context) : option Z :=
  match ctx with
  | Background => None
  | WithDeadline p d =>
      match Deadline p with
      | Some d' => Some (Z.min d d')
      | None => Some d
      end
  end.

(** ** prometheus client *)

Definition BuildFQName (namespace subsystem name : string) : string :=
  if String.eqb name "" then ""
  else if negb (String.eqb namespace "") && negb (String.eqb subsystem "") then
    namespace ++ "_" ++ subsystem ++ "_" ++ name
  else if negb (String.eqb namespace "") then namespace ++ "_" ++ name
  else if negb (String.eqb subsystem "") then subsystem ++ "_" ++ name
  else name.

Record Desc : Type := mkDesc {
  fqName : string;
  help : string;
  variableLabels : list string;
  constLabels : list (string * string)
}.

Definition NewDesc (fq hlp : string) (vl : list string)
    (cl : list (string * string)) : Desc :=
  mkDesc fq hlp vl cl.

Inductive ValueType : Type := CounterValue | GaugeValue | UntypedValue.

(** A [prometheus.Metric]: a constant sample ([NewConstMetric]) or the
    marker of [NewInvalidMetric], which the registry reports as a failed
    metric for its descriptor. *)
Inductive Metric : Type :=
| constMetric (desc : Desc) (vt : ValueType) (val : float64) (lvs : list string)
| invalidMetric (desc : Desc) (err : error).

Definition metricDesc (m : Metric) : Desc :=
  match m with
  | constMetric d _ _ _ => d
  | invalidMetric d _ => d
  end.

(** [NewConstMetric] refuses a number of label values other than the number
    of variable labels of the descriptor. *)
Definition NewConstMetric (d : Desc) (vt : ValueType) (v : float64)
    (lvs : list string) : result Metric :=
  if Nat.eqb (List.length lvs) (List.length (variableLabels d))
  then Ok (constMetric d vt v lvs)
  else Err "inconsistent label cardinality".

Definition NewInvalidMetric (d : Desc) (err : error) : Metric :=
  invalidMetric d err.

(** ** go-transmission client *)

Record Session : Type := mkSession { TurtleEnabled : bool }.

Record Stats : Type := mkStats { Downloaded : Z; Uploaded : Z }.

Record SessionStats : Type := mkSessionStats {
  ActiveTorrents : Z;
  PausedTorrents : Z;
  AllSessions : Stats
}.

Inductive SessionField : Type := SessionFieldTurtleEnabled.

(** The upstream daemon, as seen by one scrape: the answer of each RPC for
    the context it is given. Latency is the scheduling of the goroutines
    (see [step]). *)
Record Upstream : Type := mkUpstream {
  IsPortOpen : Context -> result bool;
  GetSession : Context -> list SessionField -> result Session;
  GetSessionStats : Context -> result SessionStats
}.

Inductive Query : Type :=
| QIsPortOpen
| QGetSession (fields : list SessionField)
| QGetSessionStats.

Inductive Level : Type := LevelDebug | LevelInfo | LevelWarn | LevelError.

(** Observable effects of a goroutine: an upstream call (with the context
    it is given), a log line, a send on the metric channel, a panic. *)
Inductive Event : Type :=
| EvCall (ctx : Context) (q : Query)
| EvLog (lvl : Level) (keyvals : list string)
| EvEmit (m : Metric)
| EvPanic (msg : string).

(** [ch <- prometheus.MustNewConstMetric(d, vt, v)] *)
Definition MustNewConstMetric (d : Desc) (vt : ValueType) (v : float64) : Event :=
  match NewConstMetric d vt v [] with
  | Ok m => EvEmit m
  | Err e => EvPanic e
  end.

(** ** collector.go *)

Definition namespace := "transmission".

Record Client : Type := mkClient { clientURL : string }.

(** go-kit's [log.Logger] handle; the lines it receives are [EvLog] events. *)
Record Logger : Type := mkLogger { loggerName : string }.

Record TransmissionCollector : Type := mkCollector {
  client : Client;
  logger : Logger;
  portOpenDesc : Desc;
  turtleModeDesc : Desc;
  activeTorrents : Desc;
  pausedTorrents : Desc;
  downloadedBytesTotal : Desc;
  uploadedBytesTotal : Desc
}.

Definition NewTransmissionCollector (c : Client) (l : Logger)
    : result TransmissionCollector :=
  Ok {|
    client := c;
    logger := l;
    portOpenDesc := NewDesc (BuildFQName namespace "" "is_port_open")
      "Indicates whether or not the peer port is accessible from the Internet."
      [] [];
    turtleModeDesc := NewDesc (BuildFQName namespace "" "is_turtle_mode_active")
      "Indicates whether or not turtle mode is active." [] [];
    activeTorrents := NewDesc (BuildFQName namespace "" "active_torrents")
      "Number of active torrents." [] [];
    pausedTorrents := NewDesc (BuildFQName namespace "" "paused_torrents")
      "Number of paused torrents." [] [];
    downloadedBytesTotal := NewDesc (BuildFQName namespace "" "downloaded_bytes_total")
      "Total amount of downloaded data." [] [];
    uploadedBytesTotal := NewDesc (BuildFQName namespace "" "uploaded_bytes_total")
      "Total amount of uploaded data." [] []
  |}.

(** The method receives a pointer; the embedding returns the receiver's
    state after the call along with the descriptors sent on [ch]. *)
Definition Describe (t : TransmissionCollector)
    : TransmissionCollector * list Desc :=
  (t, [portOpenDesc t; turtleModeDesc t]).

Definition collectPortOpen (t : TransmissionCollector) (u : Upstream)
    : list Event :=
  EvCall Background QIsPortOpen ::
  match IsPortOpen u Background with
  | Err err =>
      [EvLog LevelError ["msg"; "failed to get peer port state"; "err"; err]]
  | Ok open =>
      let val := if open then float64_of_Z 1 else float64_of_Z 0 in
      [MustNewConstMetric (portOpenDesc t) GaugeValue val]
  end.

Definition collectTurtleMode (t : TransmissionCollector) (u : Upstream)
    : list Event :=
  EvCall Background (QGetSession [SessionFieldTurtleEnabled]) ::
  match GetSession u Background [SessionFieldTurtleEnabled] with
  | Err err =>
      [EvLog LevelError ["msg"; "failed to query session info"; "err"; err]]
  | Ok sess =>
      let val := if TurtleEnabled sess then float64_of_Z 1 else float64_of_Z 0 in
      [MustNewConstMetric (turtleModeDesc t) GaugeValue val]
  end.

Definition collectSessionStats (t : TransmissionCollector) (u : Upstream)
    : list Event :=
  EvCall Background QGetSessionStats ::
  match GetSessionStats u Background with
  | Err err =>
      [EvLog LevelError ["msg"; "failed to query session statistics"; "err"; err]]
  | Ok stats =>
      [MustNewConstMetric (activeTorrents t) GaugeValue
         (float64_of_Z (ActiveTorrents stats));
       MustNewConstMetric (pausedTorrents t) GaugeValue
         (float64_of_Z (PausedTorrents stats));
       MustNewConstMetric (downloadedBytesTotal t) GaugeValue
         (float64_of_Z (Downloaded (AllSessions stats)));
       MustNewConstMetric (uploadedBytesTotal t) GaugeValue
         (float64_of_Z (Uploaded (AllSessions stats)))]
  end.

(** [fns := []func(chan<- prometheus.Metric){...}]: the trace each
    goroutine of [Collect] runs. *)
Definition collect_fns (t : TransmissionCollector) (u : Upstream)
    : list (list Event) :=
  [collectPortOpen t u; collectTurtleMode t u; collectSessionStats t u].

(** ** Concurrency of [Collect]

    [Collect] does [wg.Add(len(fns))], starts one goroutine per element of
    [fns] (each runs [fn(ch)] then [wg.Done()]), and returns after
    [wg.Wait()]. A goroutine is [Some es] while it still has the events [es]
    to perform, [Some []] when [fn(ch)] has returned and [wg.Done()] is next,
    and [None] once it has exited. The registry drains [ch] while [Collect]
    runs, so a send always completes; upstream latency is the freedom of the
    scheduler to run any goroutine at any time. *)

Inductive MainPc : Type :=
| MAdd (fns : list (list Event))
| MSpawn (rest : list (list Event))
| MWait
| MReturned.

Record Scrape : Type := mkScrape {
  main_pc : MainPc;
  goroutines : list (option (list Event));
  wg : nat;
  out : list Event
}.

Inductive step : Scrape -> Scrape -> Prop :=
| step_add fns gs n o :
    step (mkScrape (MAdd fns) gs n o)
         (mkScrape (MSpawn fns) gs (n + List.length fns) o)
| step_go f fs gs n o :
    step (mkScrape (MSpawn (f :: fs)) gs n o)
         (mkScrape (MSpawn fs) (gs ++ [Some f]) n o)
| step_loop_end gs n o :
    step (mkScrape (MSpawn []) gs n o) (mkScrape MWait gs n o)
| step_send pc g1 g2 e es n o :
    step (mkScrape pc (g1 ++ Some (e :: es) :: g2) n o)
         (mkScrape pc (g1 ++ Some es :: g2) n (o ++ [e]))
| step_done pc g1 g2 n o :
    step (mkScrape pc (g1 ++ Some [] :: g2) (S n) o)
         (mkScrape pc (g1 ++ None :: g2) n o)
| step_return gs o :
    step (mkScrape MWait gs 0 o) (mkScrape MReturned gs 0 o).

Inductive star {A : Type} (R : A -> A -> Prop) : A -> A -> Prop :=
| star_refl x : star R x x
| star_step x y z : R x y -> star R y z -> star R x z.

(** The state in which [Collect(ch)] is entered. *)
Definition Collect (t : TransmissionCollector) (u : Upstream) : Scrape :=
  mkScrape (MAdd (collect_fns t u)) [] 0 [].

(** [out] is what one call [Collect(ch)] sends on [ch] before returning. *)
Definition collect_returns (t : TransmissionCollector) (u : Upstream)
    (o : list Event) : Prop :=
  exists s, star step (Collect t u) s /\ main_pc s = MReturned /\ out s = o.

(** Any number of scrapes in flight at once: each is its own [Collect] call
    with its own channel; the scheduler runs any of them. *)
Inductive sys_step : list Scrape -> list Scrape -> Prop :=
| sys_step_one l1 l2 s s' :
    step s s' -> sys_step (l1 ++ s :: l2) (l1 ++ s' :: l2).

Definition sys_init (scrapes : list (TransmissionCollector * Upstream))
    : list Scrape :=
  map (fun tu => Collect (fst tu) (snd tu)) scrapes.

(** ** Successive calls on one collector

    The process holds one [*TransmissionCollector]; the registry calls
    [Describe] once at registration and [Collect] on every scrape. The
    collector is threaded through the calls as explicit state. *)

Inductive Op : Type :=
| OpDescribe
| OpCollect (u : Upstream).

Inductive OpOutput : Type :=
| OutDescs (ds : list Desc)
| OutEvents (o : list Event).

Inductive run : TransmissionCollector -> list Op -> list OpOutput
                -> TransmissionCollector -> Prop :=
| run_nil t : run t [] [] t
| run_describe t t' ds ops outs t'' :
    Describe t = (t', ds) ->
    run t' ops outs t'' ->
    run t (OpDescribe :: ops) (OutDescs ds :: outs) t''
| run_collect t u o ops outs t'' :
    collect_returns t u o ->
    run t ops outs t'' ->
    run t (OpCollect u :: ops) (OutEvents o :: outs) t''.

(** ** Observations on a scrape's output *)

Definition Desc_eq_dec (a b : Desc) : {a = b} + {a <> b}.
Proof.
  decide equality;
    repeat (apply list_eq_dec || decide equality || apply string_dec).
Defined.

Definition desc_eqb (a b : Desc) : bool :=
  if Desc_eq_dec a b then true else false.

Definition emits_for (d : Desc) (e : Event) : bool :=
  match e with
  | EvEmit m => desc_eqb (metricDesc m) d
  | _ => false
  end.

(** Number of metrics (samples or invalid markers) sent for [d]. *)
Definition samples_for (d : Desc) (o : list Event) : nat :=
  List.length (filter (emits_for d) o).

Definition is_marker (e : Event) : bool :=
  match e with
  | EvEmit (invalidMetric _ _) => true
  | _ => false
  end.

(** Number of invalid-metric markers sent for [d]. *)
Definition markers_for (d : Desc) (o : list Event) : nat :=
  List.length (filter (fun e => emits_for d e && is_marker e) o).

(** Number of valid samples sent for [d]. *)
Definition valid_for (d : Desc) (o : list Event) : nat :=
  List.length (filter (fun e => emits_for d e && negb (is_marker e)) o).

Definition is_err {A : Type} (r : result A) : bool :=
  match r with
  | Ok _ => false
  | Err _ => true
  end.

(** Whether the upstream query of each sub-collection, in the order of
    [fns], fails. *)
Definition query_fails (u : Upstream) : list bool :=
  [is_err (IsPortOpen u Background);
   is_err (GetSession u Background [SessionFieldTurtleEnabled]);
   is_err (GetSessionStats u Background)].

(** Two upstreams that answer the three queries of a scrape alike. *)
Definition same_answers (u u' : Upstream) : Prop :=
  IsPortOpen u Background = IsPortOpen u' Background /\
  GetSession u Background [SessionFieldTurtleEnabled] =
    GetSession u' Background [SessionFieldTurtleEnabled] /\
  GetSessionStats u Background = GetSessionStats u' Background.

(** The six descriptors built by [NewTransmissionCollector]. *)
Definition catalog (t : TransmissionCollector) : list Desc :=
  [portOpenDesc t; turtleModeDesc t; activeTorrents t; pausedTorrents t;
   downloadedBytesTotal t; uploadedBytesTotal t].

Definition sub_descs (t : TransmissionCollector) : list (list Desc) :=
  [[portOpenDesc t]; [turtleModeDesc t];
   [activeTorrents t; pausedTorrents t; downloadedBytesTotal t;
    uploadedBytesTotal t]].

Definition all_ok (u : Upstream) : Prop :=
  (exists b, IsPortOpen u Background = Ok b) /\
  (exists s, GetSession u Background [SessionFieldTurtleEnabled] = Ok s) /\
  (exists st, GetSessionStats u Background = Ok st).

Definition stats_ok (st : SessionStats) : Prop :=
  int64_ok (ActiveTorrents st) /\ int64_ok (PausedTorrents st) /\
  int64_ok (Downloaded (AllSessions st)) /\ int64_ok (Uploaded (AllSessions st)).

(** What one call of a run returns, on a collector [t]: [Describe] sends
    the descriptors of its body; a scrape sends, up to order, what the three
    sub-collections of [t] send for this scrape's upstream answers, and the
    same on any upstream that answers these queries alike. *)
Definition op_output_ok (t : TransmissionCollector) (op : Op) (out : OpOutput)
    : Prop :=
  match op, out with
  | OpDescribe, OutDescs ds => ds = [portOpenDesc t; turtleModeDesc t]
  | OpCollect u, OutEvents o =>
      Permutation o (List.concat (collect_fns t u)) /\
      forall u', same_answers u u' -> collect_returns t u' o
  | _, _ => False
  end.

(** A scrape of [fst tu] against [snd tu] that has returned: every
    goroutine has exited, the WaitGroup is back to zero, everything the
    three sub-collections send has been sent, and, when the three queries
    succeed, each descriptor of the catalog has one valid sample. *)
Definition scrape_done_ok (tu : TransmissionCollector * Upstream) (s : Scrape)
    : Prop :=
  main_pc s = MReturned ->
  wg s = 0 /\ Forall (fun g => g = None) (goroutines s) /\
  Permutation (out s) (List.concat (collect_fns (fst tu) (snd tu))) /\
  (all_ok (snd tu) -> forall d, In d (catalog (fst tu)) -> valid_for d (out s) = 1).

(** ** Bookkeeping of the scrape state *)

Definition g_pending (g : option (list Event)) : list Event :=
  match g with
  | Some es => es
  | None => []
  end.

(** Events the live goroutines have still to perform. *)
Definition pending (gs : list (option (list Event))) : list Event :=
  List.concat (map g_pending gs).

(** Goroutines that have not yet called [wg.Done()]. *)
Fixpoint running (gs : list (option (list Event))) : nat :=
  match gs with
  | [] => 0
  | Some _ :: gs' => S (running gs')
  | None :: gs' => running gs'
  end.

Definition spawn_rest (pc : MainPc) : list (list Event) :=
  match pc with
  | MSpawn r => r
  | _ => []
  end.

(** Invariant of a [Collect] call started on [fns]: the WaitGroup counts
    the goroutines not yet done plus those not yet started, and what has
    been sent plus what remains is, up to order, [concat fns]. *)
Definition scrape_inv (fns : list (list Event)) (s : Scrape) : Prop :=
  match main_pc s with
  | MAdd fns' => fns' = fns /\ goroutines s = [] /\ wg s = 0 /\ out s = []
  | pc =>
      wg s = running (goroutines s) + List.length (spawn_rest pc) /\
      Permutation (out s ++ pending (goroutines s) ++ List.concat (spawn_rest pc))
                  (List.concat fns) /\
      (pc = MReturned -> wg s = 0)
  end.

Definition g_weight (g : option (list Event)) : nat :=
  match g with
  | Some es => S (List.length es)
  | None => 0
  end.

Definition fn_weight (f : list Event) : nat := S (S (List.length f)).

(** Steps left before [Collect] returns, at most. *)
Definition measure (s : Scrape) : nat :=
  list_sum (map g_weight (goroutines s)) +
  match main_pc s with
  | MAdd fns => S (S (S (list_sum (map fn_weight fns))))
  | MSpawn r => S (S (list_sum (map fn_weight r)))
  | MWait => 1
  | MReturned => 0
  end.

(** ** Orderings and counts of a schedule *)

(** [l1] is [l2] with some elements left out, the others kept in order. *)
Inductive subseq {A : Type} : list A -> list A -> Prop :=
| subseq_nil l : subseq [] l
| subseq_skip x l1 l2 : subseq l1 l2 -> subseq l1 (x :: l2)
| subseq_take x l1 l2 : subseq l1 l2 -> subseq (x :: l1) (x :: l2).


(** The functions of [fns] [Collect] has not started a goroutine for. *)
Definition unspawned (pc : MainPc) : list (list Event) :=
  match pc with
  | MAdd fns => fns
  | MSpawn r => r
  | _ => []
  end.

(** Each started function has performed a prefix of its events, and these
    appear in that order in what has been sent. *)
Definition order_inv (fns : list (list Event)) (s : Scrape) : Prop :=
  exists spawned, fns = (spawned ++ unspawned (main_pc s))%list /\
    Forall2 (fun f g => exists p, f = (p ++ g_pending g)%list /\ subseq p (out s))
            spawned (goroutines s).

Definition is_emit (e : Event) : bool :=
  match e with
  | EvEmit _ => true
  | _ => false
  end.

Definition is_call (e : Event) : bool :=
  match e with
  | EvCall _ _ => true
  | _ => false
  end.

Definition is_log (e : Event) : bool :=
  match e with
  | EvLog _ _ => true
  | _ => false
  end.

(** The integer a [float64] stands for, when it stands for one. *)
Definition float_int_value (f : float64) : option Z :=
  match f with
  | S754_zero _ => Some 0%Z
  | S754_finite s m e =>
      let a := match e with
               | Zneg d =>
                   if Z.eqb (Z.modulo (Zpos m) (Z.pow 2 (Zpos d))) 0%Z
                   then Some (Z.div (Zpos m) (Z.pow 2 (Zpos d))) else None
               | _ => Some (Z.mul (Zpos m) (Z.pow 2 e))
               end in
      option_map (fun a => if s then Z.opp a else a) a
  | _ => None
  end.

(** ** exporter.go *)

(** [strings.HasPrefix] and [strings.TrimPrefix]. *)
Definition HasPrefix (s prefix : string) : bool := String.prefix prefix s.

Definition TrimPrefix (s prefix : string) : string :=
  if HasPrefix s prefix
  then substring (String.length prefix) (String.length s - String.length prefix) s
  else s.

(** The call [net.Dial(network, address)]. *)
Record NetDial : Type := mkNetDial { dialNetwork : string; dialAddress : string }.

(** [http.Transport] with its [DialContext] hook, taking the network and
    the address asked for (the context is not modelled). *)
Record Transport : Type := mkTransport { DialContext : string -> string -> NetDial }.

Record HTTPClient : Type := mkHTTPClient { clientTransport : Transport }.

(** [transmission.Option] *)
Inductive Option : Type :=
| WithHTTPClient (c : HTTPClient).



Section ExporterGo.

(** [transmission.New(url, options...)] and [r.Register(c)] on the fresh
    registry of [prometheus.NewRegistry()] (a non-nil result is the error). *)
Variable transmission_New : string -> list Option -> result Client.
Variable Register : TransmissionCollector -> option error.

(** The first statements of [newHandler]: the URL and the options the
    transmission client is created with. *)
Definition client_target (turl : string) : string * list Option :=
  if HasPrefix turl "unix://" then
    let sock := TrimPrefix turl "unix://" in
    ("http://localhost",
     [WithHTTPClient (mkHTTPClient (mkTransport (fun _ _ => mkNetDial "unix" sock)))])
  else (turl, []).


End ExporterGo.

(** ** Concrete inputs *)

Definition client0 : Client := mkClient "http://127.0.0.1:9091".
Definition logger0 : Logger := mkLogger "promlog".

Definition stats0 : SessionStats := mkSessionStats 3 2 (mkStats 123456789 98765).

Definition upstream_ok : Upstream :=
  mkUpstream (fun _ => Ok true) (fun _ _ => Ok (mkSession false)) (fun _ => Ok stats0).

Definition upstream_port_fail : Upstream :=
  mkUpstream (fun _ => Err "context deadline exceeded")
             (fun _ _ => Ok (mkSession true)) (fun _ => Ok stats0).

Definition upstream_turtle_fail : Upstream :=
  mkUpstream (fun _ => Ok true) (fun _ _ => Err "connection refused")
             (fun _ => Ok stats0).

Definition upstream_stats_fail : Upstream :=
  mkUpstream (fun _ => Ok false) (fun _ _ => Ok (mkSession true))
             (fun _ => Err "connection refused").

(** * Lemmas *)

Open Scope list_scope.

(** ** float64 conversion of integers stays finite *)
Section Float64Conversion.
Local Open Scope Z_scope.


Lemma digits2_log2 : forall p, Zpos (digits2_pos p) = Z.log2 (Zpos p) + 1.
Proof.
  induction p; simpl; try reflexivity; rewrite Pos2Z.inj_succ; rewrite IHp;
  destruct p; simpl; lia.
Qed.

Lemma shr_1_div2 : forall mrs, 0 <= shr_m mrs ->
  0 <= shr_m (shr_1 mrs) /\ shr_m (shr_1 mrs) = shr_m mrs / 2.
Proof.
  intros [m r s] H; simpl in H.
  destruct m as [|p|p]; [| |lia]; simpl; [split; reflexivity|].
  destruct p; simpl; rewrite <- Z.div2_div; simpl; lia.
Qed.

Lemma iter_shr_1 : forall p mrs, 0 <= shr_m mrs ->
  0 <= shr_m (iter_pos shr_1 p mrs) /\
  shr_m (iter_pos shr_1 p mrs) = shr_m mrs / 2 ^ Zpos p.
Proof.
  induction p; intros mrs H; cbn [iter_pos].
  - destruct (shr_1_div2 mrs H) as [H1 E1].
    destruct (IHp _ H1) as [H2 E2].
    destruct (IHp _ H2) as [H3 E3].
    split; [exact H3|]. rewrite E3, E2, E1.
    rewrite (Pos2Z.inj_xI p), !Z.div_div by lia.
    f_equal. replace (2 * Z.pos p + 1) with (Z.pos p + Z.pos p + 1) by lia.
    rewrite !Z.pow_add_r by lia. ring.
  - destruct (IHp _ H) as [H2 E2].
    destruct (IHp _ H2) as [H3 E3].
    split; [exact H3|]. rewrite E3, E2.
    rewrite (Pos2Z.inj_xO p), !Z.div_div by lia.
    f_equal. replace (2 * Z.pos p) with (Z.pos p + Z.pos p) by lia.
    rewrite !Z.pow_add_r by lia. ring.
  - apply shr_1_div2; exact H.
Qed.

Lemma iter_xO_mul : forall m k, Zpos (Pos.iter xO m k) = Zpos m * 2 ^ Zpos k.
Proof.
  intros m k; induction k using Pos.peano_ind.
  - cbn [Pos.iter]. rewrite Z.pow_1_r, (Pos2Z.inj_xO m). ring.
  - rewrite Pos.iter_succ, Pos2Z.inj_succ, Z.pow_succ_r by lia.
    change (Zpos (Pos.iter xO m k)~0) with (2 * Zpos (Pos.iter xO m k)).
    rewrite IHk; ring.
Qed.

Lemma shl_align_spec : forall m e',
  snd (shl_align m 0 e') <= 0 /\ snd (shl_align m 0 e') <= e' /\
  Z.log2 (Zpos (fst (shl_align m 0 e'))) + snd (shl_align m 0 e') = Z.log2 (Zpos m).
Proof.
  intros m e'. unfold shl_align. rewrite Z.sub_0_r.
  destruct e' as [|k|k]; cbn [fst snd]; try lia.
  rewrite iter_xO_mul, Z.log2_mul_pow2 by lia. lia.
Qed.

Lemma shr_spec : forall mrs e n, 0 <= shr_m mrs ->
  0 <= shr_m (fst (shr mrs e n)) /\ snd (shr mrs e n) = e + Z.max 0 n /\
  shr_m (fst (shr mrs e n)) = shr_m mrs / 2 ^ Z.max 0 n.
Proof.
  intros mrs e [|p|p] H; simpl.
  - rewrite Z.div_1_r; lia.
  - destruct (iter_shr_1 p mrs H); lia.
  - rewrite Z.div_1_r; lia.
Qed.

Lemma round_nearest_even_bounds : forall mx lx,
  mx <= round_nearest_even mx lx <= mx + 1.
Proof.
  intros mx [|[| |]]; simpl; try lia. destruct (Z.even mx); lia.
Qed.

Lemma Zdigits2_le : forall x j, 0 <= x -> 0 <= j -> x < 2 ^ j -> Zdigits2 x <= j.
Proof.
  intros [|p|p] j H0 Hj H; simpl; try lia.
  rewrite digits2_log2.
  apply Z.log2_lt_pow2 in H; lia.
Qed.



Lemma binary_round_finite : forall s m, Z.log2 (Zpos m) < 1023 ->
  is_finite (binary_round 53 1024 s m 0) = true.
Proof.
  intros s m Hm. pose proof (Z.log2_nonneg (Zpos m)). unfold binary_round.
  destruct (shl_align_spec m (fexp 53 1024 (Zpos (digits2_pos m) + 0)))
    as (Hez0 & Hezf & Hlog).
  destruct (shl_align m 0 _) as [mz ez] eqn:Hsh. cbn [fst snd] in *.
  rewrite digits2_log2 in Hezf.
  unfold binary_round_aux.
  destruct (shr_fexp 53 1024 (Zpos mz) ez loc_Exact) as [mrs1 e1] eqn:H1.
  unfold shr_fexp in H1. cbn [shr_record_of_loc Zdigits2] in H1.
  rewrite digits2_log2 in H1.
  destruct (shr_spec {| shr_m := Zpos mz; shr_r := false; shr_s := false |} ez
              (fexp 53 1024 (Z.log2 (Zpos mz) + 1 + ez) - ez) ltac:(simpl; lia))
    as (Hpos1 & He1 & Hm1).
  rewrite H1 in Hpos1, He1, Hm1. cbn [fst snd shr_m] in Hpos1, He1, Hm1.
  set (m2 := round_nearest_even (shr_m mrs1) (loc_of_shr_record mrs1)).
  pose proof (round_nearest_even_bounds (shr_m mrs1) (loc_of_shr_record mrs1)) as Hr.
  fold m2 in Hr.
  destruct (shr_fexp 53 1024 m2 e1 loc_Exact) as [mrs2 e2] eqn:H2.
  unfold shr_fexp in H2. cbn [shr_record_of_loc] in H2.
  destruct (shr_spec {| shr_m := m2; shr_r := false; shr_s := false |} e1
              (fexp 53 1024 (Zdigits2 m2 + e1) - e1) ltac:(simpl; lia))
    as (Hpos2 & He2 & _).
  rewrite H2 in Hpos2, He2. cbn [fst snd shr_m] in Hpos2, He2.
  unfold fexp, emin in *.
  (* the exponent after the first shift *)
  assert (He1' : e1 = Z.max (Z.log2 (Zpos m) + 1 - 53) (3 - 1024 - 53)) by lia.
  (* the mantissa after rounding stays below 2 ^ (digits - e1) *)
  assert (Hmz : Zpos mz < 2 ^ (Z.log2 (Zpos m) + 1 - ez)).
  { replace (Z.log2 (Zpos m) + 1 - ez) with (Z.succ (Z.log2 (Zpos mz))) by lia.
    apply Z.log2_spec; lia. }
  assert (Hm1' : shr_m mrs1 < 2 ^ (Z.log2 (Zpos m) + 1 - e1)).
  { rewrite Hm1. apply Z.div_lt_upper_bound.
    - apply Z.pow_pos_nonneg; lia.
    - rewrite <- Z.pow_add_r by lia.
      replace (Z.max 0 (Z.max (Z.log2 (Zpos mz) + 1 + ez - 53) (3 - 1024 - 53) - ez)
               + (Z.log2 (Zpos m) + 1 - e1))
        with (Z.log2 (Zpos m) + 1 - ez) by lia.
      exact Hmz. }
  assert (Hd2 : Zdigits2 m2 <= Z.log2 (Zpos m) + 2 - e1).
  { pose proof (Z.log2_nonneg (Zpos m)).
    assert (0 < 2 ^ (Z.log2 (Zpos m) + 1 - e1)) by (apply Z.pow_pos_nonneg; lia).
    apply Zdigits2_le; try lia.
    replace (Z.log2 (Zpos m) + 2 - e1) with (Z.succ (Z.log2 (Zpos m) + 1 - e1)) by lia.
    rewrite Z.pow_succ_r by lia. lia. }
  destruct (shr_m mrs2) as [|p|p] eqn:Hm3; simpl; try reflexivity; [|lia].
  replace (e2 <=? 971) with true; [reflexivity|].
  symmetry; apply Z.leb_le. lia.
Qed.

Lemma float64_of_Z_finite : forall z, int64_ok z -> is_finite (float64_of_Z z) = true.
Proof.
  unfold int64_ok, float64_of_Z, binary_normalize. intros [|p|p] Hz.
  - reflexivity.
  - apply binary_round_finite. apply Z.log2_lt_pow2; lia.
  - apply binary_round_finite.
    assert (Z.log2 (Zpos p) <= Z.log2 (2 ^ 63)) by (apply Z.log2_le_mono; lia).
    rewrite Z.log2_pow2 in H by lia. lia.
Qed.

End Float64Conversion.

(** ** The scheduler of [Collect] *)

Section CollectSteps.

Lemma pending_app : forall a b, pending (a ++ b) = pending a ++ pending b.
Proof. intros a b. unfold pending. rewrite map_app, concat_app. reflexivity. Qed.

Lemma running_app : forall a b, running (a ++ b) = running a + running b.
Proof. induction a as [|[g|] a IH]; intros b; simpl; rewrite ?IH; reflexivity. Qed.

Lemma star_trans {A : Type} (R : A -> A -> Prop) :
  forall x y z, star R x y -> star R y z -> star R x z.
Proof. induction 1; intros; [assumption | econstructor; eauto]. Qed.

Lemma star_one {A : Type} (R : A -> A -> Prop) : forall x y, R x y -> star R x y.
Proof. intros; econstructor; [eassumption | constructor]. Qed.

Lemma star_snoc {A : Type} (R : A -> A -> Prop) :
  forall x y z, star R x y -> R y z -> star R x z.
Proof. intros; eapply star_trans; [eassumption | apply star_one; assumption]. Qed.

Lemma step_inv : forall fns s s', scrape_inv fns s -> step s s' -> scrape_inv fns s'.
Proof.
  intros fns s s' Hi Hs; destruct Hs; unfold scrape_inv in *; cbn [main_pc goroutines wg out] in *.
  - destruct Hi as (-> & -> & -> & ->). simpl. repeat split; [reflexivity | discriminate].
  - destruct Hi as (Hn & Hp & _). cbn [spawn_rest] in *.
    rewrite running_app, pending_app. cbn [List.length running] in *.
    repeat split; [lia | | discriminate].
    unfold pending at 2; simpl. rewrite app_nil_r, <- !app_assoc. exact Hp.
  - destruct Hi as (Hn & Hp & _). repeat split; [assumption | assumption | discriminate].
  - destruct pc.
    + destruct Hi as (_ & Hg & _). destruct g1; discriminate.
    + destruct Hi as (Hn & Hp & Hr).
      rewrite running_app, pending_app in *. cbn [running] in *.
      repeat split; [lia | | assumption].
      eapply Permutation_trans; [|exact Hp].
      unfold pending; simpl. repeat (rewrite <- !app_assoc; simpl).
      apply Permutation_app_head. apply Permutation_middle.
    + destruct Hi as (Hn & Hp & Hr).
      rewrite running_app, pending_app in *. cbn [running] in *.
      repeat split; [lia | | assumption].
      eapply Permutation_trans; [|exact Hp].
      unfold pending; simpl. repeat (rewrite <- !app_assoc; simpl).
      apply Permutation_app_head. apply Permutation_middle.
    + destruct Hi as (Hn & Hp & Hr).
      rewrite running_app, pending_app in *. cbn [running] in *.
      repeat split; [lia | | assumption].
      eapply Permutation_trans; [|exact Hp].
      unfold pending; simpl. repeat (rewrite <- !app_assoc; simpl).
      apply Permutation_app_head. apply Permutation_middle.
  - destruct pc.
    + destruct Hi as (_ & Hg & _). destruct g1; discriminate.
    + destruct Hi as (Hn & Hp & Hr).
      rewrite running_app, pending_app in *. cbn [running] in *.
      repeat split; [lia | exact Hp | discriminate].
    + destruct Hi as (Hn & Hp & Hr).
      rewrite running_app, pending_app in *. cbn [running] in *.
      repeat split; [lia | exact Hp | discriminate].
    + destruct Hi as (Hn & Hp & Hr). specialize (Hr eq_refl). discriminate.
  - destruct Hi as (Hn & Hp & _). split; [exact Hn | split; [exact Hp | intros _; reflexivity]].
Qed.

Lemma star_inv : forall fns s s', scrape_inv fns s -> star step s s' -> scrape_inv fns s'.
Proof. intros fns s s' Hi Hs; induction Hs; eauto using step_inv. Qed.

Lemma Collect_inv : forall t u s,
  star step (Collect t u) s -> scrape_inv (collect_fns t u) s.
Proof.
  intros t u s Hs. eapply star_inv; [|exact Hs].
  unfold scrape_inv; simpl; auto.
Qed.

Lemma running_zero : forall gs, running gs = 0 ->
  Forall (fun g => g = None) gs /\ pending gs = [].
Proof.
  induction gs as [|[g|] gs IH]; simpl; intros H; try discriminate.
  - split; [constructor | reflexivity].
  - destruct (IH H) as [HF HP]. split; [constructor; auto|].
    unfold pending in *; simpl; exact HP.
Qed.

(** When [Collect] has returned, every goroutine has exited and the
    channel has received all the events of all of [fns]. *)
Lemma returned_complete : forall fns s,
  scrape_inv fns s -> main_pc s = MReturned ->
  Permutation (out s) (List.concat fns) /\ Forall (fun g => g = None) (goroutines s).
Proof.
  intros fns s Hi Hpc. unfold scrape_inv in Hi. rewrite Hpc in Hi.
  destruct Hi as (Hn & Hp & Hr). specialize (Hr eq_refl).
  cbn [spawn_rest List.length List.concat] in *.
  destruct (running_zero (goroutines s)) as [HF HP]; [lia|].
  rewrite HP in Hp. simpl in Hp. rewrite !app_nil_r in Hp. auto.
Qed.

Lemma running_pos_split : forall gs, running gs <> 0 ->
  exists g1 es g2, gs = g1 ++ Some es :: g2.
Proof.
  induction gs as [|[es|] gs IH]; simpl; intros H; [lia| |].
  - exists [], es, gs. reflexivity.
  - destruct (IH H) as (g1 & es & g2 & ->). exists (None :: g1), es, g2. reflexivity.
Qed.

Lemma list_sum_app : forall a b, list_sum (a ++ b) = list_sum a + list_sum b.
Proof. induction a; simpl; intros; rewrite ?IHa; lia. Qed.

Lemma progress : forall fns s, scrape_inv fns s -> main_pc s <> MReturned ->
  exists s', step s s' /\ measure s' < measure s.
Proof.
  intros fns [pc gs n o] Hi Hpc. unfold scrape_inv in Hi. cbn [main_pc goroutines wg out] in *.
  destruct pc as [fns'|[|f fs]| |]; [| | | |congruence].
  - destruct Hi as (_ & -> & -> & ->). eexists; split; [apply step_add|].
    unfold measure; simpl; lia.
  - eexists; split; [apply step_loop_end|]. unfold measure; simpl; lia.
  - eexists; split; [apply step_go|]. unfold measure; simpl.
    rewrite map_app, list_sum_app. simpl. unfold fn_weight. lia.
  - destruct Hi as (Hn & _ & _). cbn [spawn_rest List.length] in Hn.
    destruct n as [|n].
    + eexists; split; [apply step_return|]. unfold measure; simpl; lia.
    + destruct (running_pos_split gs) as (g1 & es & g2 & ->); [lia|].
      destruct es as [|e es].
      * eexists; split; [apply step_done|]. unfold measure; simpl.
        rewrite !map_app, !list_sum_app. simpl. lia.
      * eexists; split; [apply step_send|]. unfold measure; simpl.
        rewrite !map_app, !list_sum_app. simpl. lia.
Qed.

(** Whatever the scheduling so far, [Collect] can still return. *)
Lemma can_return : forall fns s, scrape_inv fns s ->
  exists s', star step s s' /\ main_pc s' = MReturned.
Proof.
  intros fns s Hi.
  remember (measure s) as k eqn:Hk. assert (Hle : measure s <= k) by lia. clear Hk.
  revert s Hi Hle. induction k as [|k IH]; intros s Hi Hle.
  - destruct (main_pc s) eqn:Hpc.
    + destruct s; unfold measure in Hle; simpl in *; subst; lia.
    + destruct s; unfold measure in Hle; simpl in *; subst; lia.
    + destruct s; unfold measure in Hle; simpl in *; subst; lia.
    + exists s; split; [constructor | assumption].
  - destruct (main_pc s) eqn:Hpc.
    4: { exists s; split; [constructor | assumption]. }
    all: destruct (progress fns s Hi) as (s' & Hs & Hm); [congruence|];
         destruct (IH s' (step_inv _ _ _ Hi Hs)) as (s'' & Hs'' & Hr); [lia|];
         exists s''; split; [econstructor; eassumption | assumption].
Qed.

Lemma run_goroutine : forall pc g1 g2 es n o,
  star step (mkScrape pc (g1 ++ Some es :: g2) (S n) o)
            (mkScrape pc (g1 ++ None :: g2) n (o ++ es)).
Proof.
  intros pc g1 g2 es; induction es as [|e es IH]; intros n o.
  - rewrite app_nil_r. apply star_one, step_done.
  - econstructor; [apply step_send|].
    replace (o ++ e :: es) with ((o ++ [e]) ++ es) by (rewrite <- app_assoc; reflexivity).
    apply IH.
Qed.

Lemma spawn_all : forall fs gs n o,
  star step (mkScrape (MSpawn fs) gs n o)
            (mkScrape (MSpawn []) (gs ++ map Some fs) n o).
Proof.
  induction fs as [|f fs IH]; intros gs n o.
  - rewrite app_nil_r. constructor.
  - econstructor; [apply step_go|].
    replace (gs ++ map Some (f :: fs)) with ((gs ++ [Some f]) ++ map Some fs)
      by (rewrite <- app_assoc; reflexivity).
    apply IH.
Qed.

Lemma run_all : forall fs g1 o,
  star step (mkScrape MWait (map (fun _ => None) g1 ++ map Some fs) (List.length fs) o)
            (mkScrape MWait (map (fun _ => None) (g1 ++ fs)) 0 (o ++ List.concat fs)).
Proof.
  induction fs as [|f fs IH]; intros g1 o.
  - rewrite !app_nil_r. constructor.
  - change (map Some (f :: fs)) with (Some f :: map Some fs).
    change (List.length (f :: fs)) with (S (List.length fs)).
    eapply star_trans; [apply run_goroutine|].
    replace (map (fun _ : list Event => None) g1 ++ None :: map Some fs)
      with (map (fun _ : list Event => @None (list Event)) (g1 ++ [f]) ++ map Some fs)
      by (rewrite map_app, <- app_assoc; reflexivity).
    replace (o ++ List.concat (f :: fs)) with ((o ++ f) ++ List.concat fs)
      by (simpl; rewrite app_assoc; reflexivity).
    replace (g1 ++ f :: fs) with ((g1 ++ [f]) ++ fs) by (rewrite <- app_assoc; reflexivity).
    apply IH.
Qed.

(** One schedule: the goroutines run one after the other, in the order
    they were started. *)
Lemma sequential_schedule : forall fns,
  star step (mkScrape (MAdd fns) [] 0 [])
            (mkScrape MReturned (map (fun _ => None) fns) 0 (List.concat fns)).
Proof.
  intros fns.
  econstructor; [apply step_add|]. simpl.
  eapply star_trans; [apply spawn_all|]. simpl.
  econstructor; [apply step_loop_end|].
  eapply star_trans; [apply (run_all fns [] [])|]. simpl.
  apply star_one, step_return.
Qed.

Lemma collect_returns_sequential : forall t u,
  collect_returns t u (List.concat (collect_fns t u)).
Proof.
  intros t u. eexists; split; [apply sequential_schedule|]. split; reflexivity.
Qed.

Lemma collect_returns_perm : forall t u o,
  collect_returns t u o -> Permutation o (List.concat (collect_fns t u)).
Proof.
  intros t u o (s & Hs & Hpc & <-).
  apply (returned_complete _ _ (Collect_inv _ _ _ Hs) Hpc).
Qed.

(** ** Several scrapes at once *)

Lemma sys_lift : forall l1 l2 s s', star step s s' ->
  star sys_step (l1 ++ s :: l2) (l1 ++ s' :: l2).
Proof.
  intros l1 l2 s s' H; induction H; [constructor|].
  econstructor; [apply sys_step_one; eassumption | assumption].
Qed.

Lemma sys_cons : forall s l l', star sys_step l l' -> star sys_step (s :: l) (s :: l').
Proof.
  intros s l l' H; induction H; [constructor|].
  econstructor; [|eassumption].
  destruct H. apply (sys_step_one (s :: l1)). assumption.
Qed.

Lemma sys_components : forall scrapes l l',
  star sys_step l l' ->
  Forall2 (fun tu s => star step (Collect (fst tu) (snd tu)) s) scrapes l ->
  Forall2 (fun tu s => star step (Collect (fst tu) (snd tu)) s) scrapes l'.
Proof.
  intros scrapes l l' H; induction H as [|x y z Hxy Hyz IH]; intros HF; [assumption|].
  apply IH. destruct Hxy as [l1 l2 s s' Hs].
  apply Forall2_app_inv_r in HF as (sc1 & sc2 & H1 & H2 & ->).
  inversion H2 as [|tu s0 sc2' l2' Htu Hrest]; subst.
  apply Forall2_app; [assumption|]. constructor; [|assumption].
  eapply star_snoc; eassumption.
Qed.

Lemma sys_init_components : forall scrapes,
  Forall2 (fun tu s => star step (Collect (fst tu) (snd tu)) s) scrapes (sys_init scrapes).
Proof.
  induction scrapes; simpl; constructor; [constructor | assumption].
Qed.

Lemma sys_can_return : forall l,
  Forall (fun s => exists s', star step s s' /\ main_pc s' = MReturned) l ->
  exists l', star sys_step l l' /\ Forall (fun s => main_pc s = MReturned) l'.
Proof.
  induction 1 as [|s l (s' & Hs & Hr) _ (l' & Hl & Hl')].
  - exists []; split; constructor.
  - exists (s' :: l'); split; [|constructor; assumption].
    eapply star_trans; [apply sys_cons; exact Hl|].
    apply (sys_lift [] l' s s' Hs).
Qed.

End CollectSteps.

(** ** What the sub-collections send *)

Section Emissions.

Lemma filter_perm : forall (f : Event -> bool) l l',
  Permutation l l' -> Permutation (filter f l) (filter f l').
Proof.
  intros f l l' H; induction H as [|x l l' _ IH|x y l|l l' l'' _ IH1 _ IH2]; simpl.
  - constructor.
  - destruct (f x); [constructor|]; assumption.
  - destruct (f y), (f x); try constructor; apply Permutation_refl.
  - eapply Permutation_trans; eassumption.
Qed.

Lemma collect_filter : forall (f : Event -> bool) t u o, collect_returns t u o ->
  Permutation (filter f o)
    (filter f (collectPortOpen t u) ++ filter f (collectTurtleMode t u) ++
     filter f (collectSessionStats t u)).
Proof.
  intros f t u o H. apply collect_returns_perm in H.
  apply (filter_perm f) in H. unfold collect_fns in H. cbn [List.concat] in H.
  rewrite !filter_app, app_nil_r in H. exact H.
Qed.

Lemma collect_count : forall (f : Event -> bool) t u o, collect_returns t u o ->
  List.length (filter f o) =
    List.length (filter f (collectPortOpen t u)) +
    List.length (filter f (collectTurtleMode t u)) +
    List.length (filter f (collectSessionStats t u)).
Proof.
  intros f t u o H. apply (collect_filter f) in H.
  apply Permutation_length in H. rewrite H, !length_app. lia.
Qed.

Lemma collect_in : forall t u o e, collect_returns t u o -> In e o ->
  In e (collectPortOpen t u) \/ In e (collectTurtleMode t u) \/
  In e (collectSessionStats t u).
Proof.
  intros t u o e H Hin. apply collect_returns_perm in H.
  apply (Permutation_in e) in H; [|exact Hin].
  unfold collect_fns in H. cbn [List.concat] in H. rewrite app_nil_r in H.
  apply in_app_or in H as [H|H]; [left; exact H|right].
  apply in_app_or in H; exact H.
Qed.

Lemma in_collect : forall t u o e, collect_returns t u o ->
  In e (collectPortOpen t u) \/ In e (collectTurtleMode t u) \/
  In e (collectSessionStats t u) -> In e o.
Proof.
  intros t u o e H Hin. apply collect_returns_perm, Permutation_sym in H.
  apply (Permutation_in e H).
  unfold collect_fns; cbn [List.concat]; rewrite app_nil_r.
  apply in_or_app; destruct Hin as [Hin|Hin]; [left; exact Hin|right].
  apply in_or_app; exact Hin.
Qed.

Lemma new_collector : forall c l t, NewTransmissionCollector c l = Ok t ->
  t = {|
    client := c;
    logger := l;
    portOpenDesc := NewDesc (BuildFQName namespace "" "is_port_open")
      "Indicates whether or not the peer port is accessible from the Internet."
      [] [];
    turtleModeDesc := NewDesc (BuildFQName namespace "" "is_turtle_mode_active")
      "Indicates whether or not turtle mode is active." [] [];
    activeTorrents := NewDesc (BuildFQName namespace "" "active_torrents")
      "Number of active torrents." [] [];
    pausedTorrents := NewDesc (BuildFQName namespace "" "paused_torrents")
      "Number of paused torrents." [] [];
    downloadedBytesTotal := NewDesc (BuildFQName namespace "" "downloaded_bytes_total")
      "Total amount of downloaded data." [] [];
    uploadedBytesTotal := NewDesc (BuildFQName namespace "" "uploaded_bytes_total")
      "Total amount of uploaded data." [] []
  |}.
Proof. intros c l t H. injection H as <-. reflexivity. Qed.

Lemma MustNewConstMetric_not_log : forall d vt v lvl kvs,
  MustNewConstMetric d vt v <> EvLog lvl kvs.
Proof.
  intros d vt v lvl kvs. unfold MustNewConstMetric, NewConstMetric.
  destruct (Nat.eqb _ _); discriminate.
Qed.

(** Every line the scrape logs is at error level. *)
Lemma logs_are_errors : forall t u o lvl kvs,
  collect_returns t u o -> In (EvLog lvl kvs) o -> lvl = LevelError.
Proof.
  intros t u o lvl kvs Hret Hin.
  destruct (collect_in _ _ _ _ Hret Hin) as [H|[H|H]];
    unfold collectPortOpen, collectTurtleMode, collectSessionStats in H;
    [destruct (IsPortOpen u Background) |
     destruct (GetSession u Background [SessionFieldTurtleEnabled]) |
     destruct (GetSessionStats u Background)];
    cbn [In] in H; repeat destruct H as [H|H]; try contradiction;
    try discriminate H;
    solve [injection H; auto | exfalso; eapply MustNewConstMetric_not_log; exact H].
Qed.

(** Every upstream call of the scrape gets [context.Background()]. *)
Lemma calls_background : forall t u o ctx q,
  collect_returns t u o -> In (EvCall ctx q) o -> ctx = Background.
Proof.
  intros t u o ctx q Hret Hin.
  destruct (collect_in _ _ _ _ Hret Hin) as [H|[H|H]];
    unfold collectPortOpen, collectTurtleMode, collectSessionStats in H;
    [destruct (IsPortOpen u Background) |
     destruct (GetSession u Background [SessionFieldTurtleEnabled]) |
     destruct (GetSessionStats u Background)];
    cbn [In] in H; repeat destruct H as [H|H]; try contradiction;
    try discriminate H;
    solve [injection H; auto | exfalso; unfold MustNewConstMetric in H;
                               destruct (NewConstMetric _ _ _ _); discriminate H].
Qed.

Lemma same_answers_fns : forall t u u',
  same_answers u u' -> collect_fns t u = collect_fns t u'.
Proof.
  intros t u u' (H1 & H2 & H3).
  unfold collect_fns, collectPortOpen, collectTurtleMode, collectSessionStats.
  rewrite H1, H2, H3. reflexivity.
Qed.

Lemma collect_returns_same_answers : forall t u u' o,
  same_answers u u' -> collect_returns t u o -> collect_returns t u' o.
Proof.
  intros t u u' o Hs Hret. unfold collect_returns, Collect in *.
  rewrite <- (same_answers_fns t u u' Hs). exact Hret.
Qed.

(** When the three queries succeed, each descriptor of the catalog gets one
    valid sample. *)
Lemma all_ok_valid : forall c l t u o,
  NewTransmissionCollector c l = Ok t -> all_ok u -> collect_returns t u o ->
  forall d, In d (catalog t) -> valid_for d o = 1.
Proof.
  intros c l t u o Hnew ((b & Hp) & (sess & Hs) & (st & Hst)) Hret d Hin.
  apply new_collector in Hnew; subst t.
  unfold valid_for. rewrite (collect_count _ _ _ _ Hret).
  unfold collectPortOpen, collectTurtleMode, collectSessionStats.
  rewrite Hp, Hs, Hst.
  simpl in Hin. repeat destruct Hin as [<-|Hin]; try contradiction;
    vm_compute; reflexivity.
Qed.

End Emissions.

(** Case analysis on an event of a sub-collection's trace. *)
Ltac trace_event H :=
  simpl in H; repeat destruct H as [H|H]; try contradiction; try discriminate H;
  try (injection H as H; subst).

Ltac pick_in := solve [repeat (first [left; reflexivity | right])].

Ltac destruct_results :=
  repeat match goal with
         | |- context [match ?x with Ok _ => _ | Err _ => _ end] =>
             lazymatch x with
             | Ok _ => fail
             | Err _ => fail
             | _ => destruct x
             end
         end.

(** Counting metrics in [o] by the traces of the three goroutines. *)
Ltac count_by_traces Hret :=
  rewrite ?(collect_count _ _ _ _ Hret);
  unfold collectPortOpen, collectTurtleMode, collectSessionStats.

(** * Claims *)

(** C5: when the three upstream queries succeed, [Collect] sends exactly
    one metric per descriptor of the catalog, and it is a valid sample; every
    metric it sends is a gauge of the catalog with a finite value; the
    port-open and turtle-mode gauges are 1.0 when the queried boolean is
    true and 0.0 otherwise. *)
Theorem Collect_all_ok_one_finite_sample_each :
  forall c l t u o b sess st,
  NewTransmissionCollector c l = Ok t ->
  IsPortOpen u Background = Ok b ->
  GetSession u Background [SessionFieldTurtleEnabled] = Ok sess ->
  GetSessionStats u Background = Ok st ->
  stats_ok st ->
  collect_returns t u o ->
  (forall d, In d (catalog t) -> samples_for d o = 1 /\ valid_for d o = 1) /\
  (forall m, In (EvEmit m) o ->
     In (metricDesc m) (catalog t) /\
     exists v, m = constMetric (metricDesc m) GaugeValue v [] /\ is_finite v = true) /\
  (forall m, In (EvEmit m) o -> metricDesc m = portOpenDesc t ->
     m = constMetric (portOpenDesc t) GaugeValue
           (if b then float64_of_Z 1 else float64_of_Z 0) []) /\
  (forall m, In (EvEmit m) o -> metricDesc m = turtleModeDesc t ->
     m = constMetric (turtleModeDesc t) GaugeValue
           (if TurtleEnabled sess then float64_of_Z 1 else float64_of_Z 0) []).
Proof.
  intros c l t u o b sess st Hnew Hp Hs Hst Hok Hret.
  apply new_collector in Hnew; subst t.
  destruct Hok as (Ha & Hpa & Hd & Hu).
  split; [|split; [|split]].
  - intros d Hin. unfold samples_for, valid_for. rewrite !(collect_count _ _ _ _ Hret).
    unfold collectPortOpen, collectTurtleMode, collectSessionStats.
    rewrite Hp, Hs, Hst.
    simpl in Hin. repeat destruct Hin as [<-|Hin]; try contradiction;
      vm_compute; split; reflexivity.
  - intros m Hm. destruct (collect_in _ _ _ _ Hret Hm) as [H|[H|H]];
      unfold collectPortOpen, collectTurtleMode, collectSessionStats in H;
      [rewrite Hp in H | rewrite Hs in H | rewrite Hst in H]; trace_event H;
      (split; [simpl; pick_in | eexists; split; [reflexivity|]]).
    + destruct b; reflexivity.
    + destruct (TurtleEnabled sess); reflexivity.
    + apply float64_of_Z_finite; assumption.
    + apply float64_of_Z_finite; assumption.
    + apply float64_of_Z_finite; assumption.
    + apply float64_of_Z_finite; assumption.
  - intros m Hm Hdesc. destruct (collect_in _ _ _ _ Hret Hm) as [H|[H|H]];
      unfold collectPortOpen, collectTurtleMode, collectSessionStats in H;
      [rewrite Hp in H | rewrite Hs in H | rewrite Hst in H]; trace_event H;
      solve [reflexivity | discriminate Hdesc].
  - intros m Hm Hdesc. destruct (collect_in _ _ _ _ Hret Hm) as [H|[H|H]];
      unfold collectPortOpen, collectTurtleMode, collectSessionStats in H;
      [rewrite Hp in H | rewrite Hs in H | rewrite Hst in H]; trace_event H;
      solve [reflexivity | discriminate Hdesc].
Qed.

(** C9: on a scrape where the three queries succeed, [Collect] sends a
    valid sample for each descriptor [Describe] sends, and also one for each
    of the four session-statistics descriptors, which [Describe] never
    sends: the descriptors of [Describe] are a strict subset of those of the
    samples. *)
Theorem Describe_strict_subset_of_collected :
  forall c l t u o,
  NewTransmissionCollector c l = Ok t ->
  all_ok u ->
  collect_returns t u o ->
  (forall d, In d (snd (Describe t)) -> valid_for d o = 1) /\
  (forall d, In d [activeTorrents t; pausedTorrents t; downloadedBytesTotal t;
                   uploadedBytesTotal t] ->
     valid_for d o = 1 /\ ~ In d (snd (Describe t))).
Proof.
  intros c l t u o Hnew ((b & Hp) & (sess & Hs) & (st & Hst)) Hret.
  apply new_collector in Hnew; subst t.
  split.
  - intros d Hin. unfold valid_for. rewrite (collect_count _ _ _ _ Hret).
    unfold collectPortOpen, collectTurtleMode, collectSessionStats.
    rewrite Hp, Hs, Hst.
    simpl in Hin. repeat destruct Hin as [<-|Hin]; try contradiction;
      vm_compute; reflexivity.
  - intros d Hin. split.
    + unfold valid_for. rewrite (collect_count _ _ _ _ Hret).
      unfold collectPortOpen, collectTurtleMode, collectSessionStats.
      rewrite Hp, Hs, Hst.
      simpl in Hin. repeat destruct Hin as [<-|Hin]; try contradiction;
        vm_compute; reflexivity.
    + simpl in Hin. simpl.
      repeat destruct Hin as [<-|Hin]; try contradiction;
        intros [H|[H|[]]]; discriminate H.
Qed.

(** C1 (evaluated on the collector the exporter builds): [Describe] leaves
    the receiver unchanged and sends two descriptors, is_port_open and
    is_turtle_mode_active; the four session-statistics descriptors of the
    six-descriptor catalog are not among them. *)
Theorem Describe_sends_two_of_six :
  match NewTransmissionCollector client0 logger0 with
  | Ok t =>
      fst (Describe t) = t /\
      snd (Describe t) = [portOpenDesc t; turtleModeDesc t] /\
      List.length (snd (Describe t)) = 2 /\
      List.length (catalog t) = 6 /\ NoDup (catalog t) /\
      Forall (fun d => ~ In d (snd (Describe t)))
        [activeTorrents t; pausedTorrents t; downloadedBytesTotal t;
         uploadedBytesTotal t]
  | Err _ => False
  end.
Proof.
  simpl. split; [reflexivity|]. split; [reflexivity|].
  split; [reflexivity|]. split; [reflexivity|]. split.
  - repeat constructor; simpl;
      intros H; repeat destruct H as [H|H]; try contradiction; discriminate H.
  - repeat constructor; simpl; intros [H|[H|[]]]; discriminate H.
Qed.

(** C10: when the upstream query of a sub-collection fails, [Collect] sends
    no metric at all (neither a sample nor an invalid marker) for that
    sub-collection's descriptors; the goroutine only performs its call and
    logs at error level; and the metrics sent for the descriptors of every
    other sub-collection are exactly those that sub-collection's own
    goroutine sends. *)
Theorem failed_query_sends_nothing :
  forall c l t u o k ds fn,
  NewTransmissionCollector c l = Ok t ->
  collect_returns t u o ->
  nth_error (query_fails u) k = Some true ->
  nth_error (sub_descs t) k = Some ds ->
  nth_error (collect_fns t u) k = Some fn ->
  (forall d, In d ds -> samples_for d o = 0) /\
  (forall e, In e fn ->
     (exists ctx q, e = EvCall ctx q) \/ (exists kvs, e = EvLog LevelError kvs)) /\
  (exists kvs, In (EvLog LevelError kvs) fn /\ In (EvLog LevelError kvs) o) /\
  (forall j ds' fn', j <> k ->
     nth_error (sub_descs t) j = Some ds' ->
     nth_error (collect_fns t u) j = Some fn' ->
     forall d, In d ds' ->
       Permutation (filter (emits_for d) o) (filter (emits_for d) fn')).
Proof.
  intros c l t u o k ds fn Hnew Hret Hk Hds Hfn.
  apply new_collector in Hnew; subst t.
  destruct k as [|[|[|k]]]; cbn [nth_error query_fails sub_descs collect_fns] in Hk, Hds, Hfn;
    [..|destruct k; discriminate Hds];
    injection Hds as <-; injection Hfn as <-.
  - destruct (IsPortOpen u Background) as [b|err] eqn:E; [discriminate Hk|].
    split; [|split; [|split]].
    + intros d Hd. unfold samples_for. count_by_traces Hret. rewrite E.
      destruct_results; simpl in Hd; repeat destruct Hd as [<-|Hd];
        try contradiction; vm_compute; reflexivity.
    + intros e He. unfold collectPortOpen in He. rewrite E in He.
      destruct He as [<-|[<-|[]]]; [left; eauto | right; eauto].
    + eexists; split.
      * unfold collectPortOpen; rewrite E; right; left; reflexivity.
      * apply (in_collect _ _ _ _ Hret). left. unfold collectPortOpen; rewrite E.
        right; left; reflexivity.
    + intros j ds' fn' Hjk Hj Hfn' d Hd.
      eapply Permutation_trans; [apply collect_filter; exact Hret|].
      destruct j as [|[|[|j]]]; cbn [nth_error sub_descs collect_fns] in Hj, Hfn';
        try (exfalso; apply Hjk; reflexivity);
        [..|destruct j; discriminate Hj];
        injection Hj as <-; injection Hfn' as <-;
        unfold collectPortOpen, collectTurtleMode, collectSessionStats; rewrite E;
        destruct_results; simpl in Hd; repeat destruct Hd as [<-|Hd];
        try contradiction; simpl; apply Permutation_refl.
  - destruct (GetSession u Background [SessionFieldTurtleEnabled]) as [sess|err] eqn:E;
      [discriminate Hk|].
    split; [|split; [|split]].
    + intros d Hd. unfold samples_for. count_by_traces Hret. rewrite E.
      destruct_results; simpl in Hd; repeat destruct Hd as [<-|Hd];
        try contradiction; vm_compute; reflexivity.
    + intros e He. unfold collectTurtleMode in He. rewrite E in He.
      destruct He as [<-|[<-|[]]]; [left; eauto | right; eauto].
    + eexists; split.
      * unfold collectTurtleMode; rewrite E; right; left; reflexivity.
      * apply (in_collect _ _ _ _ Hret). right; left. unfold collectTurtleMode; rewrite E.
        right; left; reflexivity.
    + intros j ds' fn' Hjk Hj Hfn' d Hd.
      eapply Permutation_trans; [apply collect_filter; exact Hret|].
      destruct j as [|[|[|j]]]; cbn [nth_error sub_descs collect_fns] in Hj, Hfn';
        try (exfalso; apply Hjk; reflexivity);
        [..|destruct j; discriminate Hj];
        injection Hj as <-; injection Hfn' as <-;
        unfold collectPortOpen, collectTurtleMode, collectSessionStats; rewrite E;
        destruct_results; simpl in Hd; repeat destruct Hd as [<-|Hd];
        try contradiction; simpl; apply Permutation_refl.
  - destruct (GetSessionStats u Background) as [st|err] eqn:E; [discriminate Hk|].
    split; [|split; [|split]].
    + intros d Hd. unfold samples_for. count_by_traces Hret. rewrite E.
      destruct_results; simpl in Hd; repeat destruct Hd as [<-|Hd];
        try contradiction; vm_compute; reflexivity.
    + intros e He. unfold collectSessionStats in He. rewrite E in He.
      destruct He as [<-|[<-|[]]]; [left; eauto | right; eauto].
    + eexists; split.
      * unfold collectSessionStats; rewrite E; right; left; reflexivity.
      * apply (in_collect _ _ _ _ Hret). right; right.
        unfold collectSessionStats; rewrite E. right; left; reflexivity.
    + intros j ds' fn' Hjk Hj Hfn' d Hd.
      eapply Permutation_trans; [apply collect_filter; exact Hret|].
      destruct j as [|[|[|j]]]; cbn [nth_error sub_descs collect_fns] in Hj, Hfn';
        try (exfalso; apply Hjk; reflexivity);
        [..|destruct j; discriminate Hj];
        injection Hj as <-; injection Hfn' as <-;
        unfold collectPortOpen, collectTurtleMode, collectSessionStats; rewrite E;
        destruct_results; simpl in Hd; repeat destruct Hd as [<-|Hd];
        try contradiction; simpl; apply Permutation_refl.
Qed.

(** C2 (as the code behaves): when the session-statistics query fails,
    [Collect] sends no metric at all for the four session-statistics
    descriptors (in particular no invalid-metric marker), logs the error at
    error level, and still sends one valid sample for port-open and for
    turtle-mode whenever their own queries succeed. *)
Theorem stats_failure_sends_nothing_for_stats :
  forall c l t u o err,
  NewTransmissionCollector c l = Ok t ->
  GetSessionStats u Background = Err err ->
  collect_returns t u o ->
  (forall d, In d [activeTorrents t; pausedTorrents t; downloadedBytesTotal t;
                   uploadedBytesTotal t] ->
     samples_for d o = 0 /\ markers_for d o = 0) /\
  In (EvLog LevelError ["msg"; "failed to query session statistics"; "err"; err]) o /\
  ((exists b, IsPortOpen u Background = Ok b) -> valid_for (portOpenDesc t) o = 1) /\
  ((exists s, GetSession u Background [SessionFieldTurtleEnabled] = Ok s) ->
     valid_for (turtleModeDesc t) o = 1).
Proof.
  intros c l t u o err Hnew E Hret.
  apply new_collector in Hnew; subst t.
  split; [|split; [|split]].
  - intros d Hd. unfold samples_for, markers_for. count_by_traces Hret. rewrite E.
    destruct_results; simpl in Hd; repeat destruct Hd as [<-|Hd];
      try contradiction; vm_compute; split; reflexivity.
  - apply (in_collect _ _ _ _ Hret). right; right.
    unfold collectSessionStats; rewrite E. right; left; reflexivity.
  - intros (b & Hp). unfold valid_for. count_by_traces Hret. rewrite E, Hp.
    destruct_results; vm_compute; reflexivity.
  - intros (sess & Hs). unfold valid_for. count_by_traces Hret. rewrite E, Hs.
    destruct_results; vm_compute; reflexivity.
Qed.

(** C3 (as the code behaves): when the turtle-mode query fails, [Collect]
    sends no metric at all for the turtle-mode descriptor (in particular no
    invalid-metric marker), logs the error at error level, and still sends
    one valid sample for port-open and for each session-statistics
    descriptor whenever their own queries succeed. *)
Theorem turtle_failure_sends_nothing_for_turtle :
  forall c l t u o err,
  NewTransmissionCollector c l = Ok t ->
  GetSession u Background [SessionFieldTurtleEnabled] = Err err ->
  collect_returns t u o ->
  samples_for (turtleModeDesc t) o = 0 /\ markers_for (turtleModeDesc t) o = 0 /\
  In (EvLog LevelError ["msg"; "failed to query session info"; "err"; err]) o /\
  ((exists b, IsPortOpen u Background = Ok b) -> valid_for (portOpenDesc t) o = 1) /\
  ((exists st, GetSessionStats u Background = Ok st) ->
     forall d, In d [activeTorrents t; pausedTorrents t; downloadedBytesTotal t;
                     uploadedBytesTotal t] -> valid_for d o = 1).
Proof.
  intros c l t u o err Hnew E Hret.
  apply new_collector in Hnew; subst t.
  split; [|split; [|split; [|split]]].
  - unfold samples_for. count_by_traces Hret. rewrite E.
    destruct_results; vm_compute; reflexivity.
  - unfold markers_for. count_by_traces Hret. rewrite E.
    destruct_results; vm_compute; reflexivity.
  - apply (in_collect _ _ _ _ Hret). right; left.
    unfold collectTurtleMode; rewrite E. right; left; reflexivity.
  - intros (b & Hp). unfold valid_for. count_by_traces Hret. rewrite E, Hp.
    destruct_results; vm_compute; reflexivity.
  - intros (st & Hst) d Hd. unfold valid_for. count_by_traces Hret. rewrite E, Hst.
    destruct_results; simpl in Hd; repeat destruct Hd as [<-|Hd];
      try contradiction; vm_compute; reflexivity.
Qed.

(** C4 (as the code behaves): when the port-reachability query fails,
    [Collect] sends no metric at all for the port-open descriptor (neither a
    0.0 sample nor an invalid-metric marker), logs the failure at error
    level, logs nothing at any other level (no warning), and still sends one
    valid sample for turtle-mode and for each session-statistics descriptor
    whenever their own queries succeed. *)
Theorem port_failure_sends_nothing_for_port :
  forall c l t u o err,
  NewTransmissionCollector c l = Ok t ->
  IsPortOpen u Background = Err err ->
  collect_returns t u o ->
  samples_for (portOpenDesc t) o = 0 /\ valid_for (portOpenDesc t) o = 0 /\
  markers_for (portOpenDesc t) o = 0 /\
  In (EvLog LevelError ["msg"; "failed to get peer port state"; "err"; err]) o /\
  (forall lvl kvs, In (EvLog lvl kvs) o -> lvl = LevelError) /\
  ((exists s, GetSession u Background [SessionFieldTurtleEnabled] = Ok s) ->
     valid_for (turtleModeDesc t) o = 1) /\
  ((exists st, GetSessionStats u Background = Ok st) ->
     forall d, In d [activeTorrents t; pausedTorrents t; downloadedBytesTotal t;
                     uploadedBytesTotal t] -> valid_for d o = 1).
Proof.
  intros c l t u o err Hnew E Hret.
  assert (Hlog : forall lvl kvs, In (EvLog lvl kvs) o -> lvl = LevelError)
    by (intros lvl kvs; apply logs_are_errors with t u; exact Hret).
  apply new_collector in Hnew; subst t.
  split; [|split; [|split; [|split; [|split; [|split]]]]].
  - unfold samples_for. count_by_traces Hret. rewrite E.
    destruct_results; vm_compute; reflexivity.
  - unfold valid_for. count_by_traces Hret. rewrite E.
    destruct_results; vm_compute; reflexivity.
  - unfold markers_for. count_by_traces Hret. rewrite E.
    destruct_results; vm_compute; reflexivity.
  - apply (in_collect _ _ _ _ Hret). left.
    unfold collectPortOpen; rewrite E. right; left; reflexivity.
  - exact Hlog.
  - intros (sess & Hs). unfold valid_for. count_by_traces Hret. rewrite E, Hs.
    destruct_results; vm_compute; reflexivity.
  - intros (st & Hst) d Hd. unfold valid_for. count_by_traces Hret. rewrite E, Hst.
    destruct_results; simpl in Hd; repeat destruct Hd as [<-|Hd];
      try contradiction; vm_compute; reflexivity.
Qed.

(** C6 (as the code behaves): every upstream query of a scrape, the
    port-reachability query included, is issued with
    [context.Background()], a context that carries no deadline: the port
    query has no timeout of its own, distinct from the other two. *)
Theorem upstream_calls_have_no_deadline :
  forall t u o,
  collect_returns t u o ->
  In (EvCall Background QIsPortOpen) o /\
  (forall ctx q, In (EvCall ctx q) o -> ctx = Background /\ Deadline ctx = None).
Proof.
  intros t u o Hret. split.
  - apply (in_collect _ _ _ _ Hret). left. left. reflexivity.
  - intros ctx q Hin. rewrite (calls_background _ _ _ _ _ Hret Hin).
    split; reflexivity.
Qed.

(** C7: any number of scrapes may run at once, interleaved in any order.
    From any reachable state every scrape can still return (no deadlock),
    and a scrape that has returned has seen all its goroutines exit and sent
    everything its three sub-collections send; when its three queries
    succeed it has one valid sample for each descriptor of the catalog. *)
Theorem concurrent_scrapes_complete_no_deadlock :
  forall scrapes sys,
  Forall (fun tu => exists c l, NewTransmissionCollector c l = Ok (fst tu)) scrapes ->
  star sys_step (sys_init scrapes) sys ->
  (exists sys', star sys_step sys sys' /\ Forall (fun s => main_pc s = MReturned) sys') /\
  Forall2 scrape_done_ok scrapes sys.
Proof.
  intros scrapes sys Hnew Hstar.
  pose proof (sys_components _ _ _ Hstar (sys_init_components scrapes)) as HF.
  split.
  - apply sys_can_return. clear Hstar Hnew.
    induction HF as [|tu s scs ss Hs _ IH]; constructor; [|exact IH].
    eapply can_return, Collect_inv, Hs.
  - clear Hstar. induction HF as [|tu s scs ss Hs _ IH]; constructor.
    + inversion Hnew as [|? ? (c & l & Hc) _]; subst. intros Hpc.
      pose proof (Collect_inv _ _ _ Hs) as Hinv.
      destruct (returned_complete _ _ Hinv Hpc) as [Hperm Hnone].
      unfold scrape_inv in Hinv; rewrite Hpc in Hinv. destruct Hinv as (_ & _ & Hwg).
      split; [apply Hwg; reflexivity|]. split; [exact Hnone|].
      split; [exact Hperm|].
      intros Hok d Hd. apply (all_ok_valid c l (fst tu) (snd tu)); try assumption.
      exists s; split; [exact Hs | split; [exact Hpc | reflexivity]].
    + inversion Hnew; subst; apply IH; assumption.
Qed.

(** C8: along any sequence of [Describe] and [Collect] calls on one
    collector, the collector is never changed; [Describe] always sends the
    same descriptors; and each scrape's output is, up to order, determined
    by the collector and by that scrape's own upstream answers alone. *)
Theorem scrapes_share_no_state :
  forall t ops outs t',
  run t ops outs t' ->
  t' = t /\ Forall2 (op_output_ok t) ops outs.
Proof.
  intros t ops outs t' H.
  induction H as [t|t t1 ds ops outs t'' Hd _ [IH1 IH2]|t u o ops outs t'' Hret _ [IH1 IH2]].
  - split; constructor.
  - injection Hd as <- <-. split; [exact IH1|]. constructor; [reflexivity | exact IH2].
  - split; [exact IH1|]. constructor; [|exact IH2]. split.
    + apply collect_returns_perm; exact Hret.
    + intros u' Hs. apply (collect_returns_same_answers t u u'); assumption.
Qed.

(** * Witnesses and counterexamples on concrete scrapes *)

Lemma Collect_all_ok_one_finite_sample_each_witness :
  exists t o, NewTransmissionCollector client0 logger0 = Ok t /\
    collect_returns t upstream_ok o /\ stats_ok stats0 /\
    (forall d, In d (catalog t) -> samples_for d o = 1 /\ valid_for d o = 1).
Proof.
  assert (Hst : stats_ok stats0)
    by (unfold stats_ok, int64_ok; simpl; repeat split; lia).
  eexists; eexists; split; [reflexivity|].
  split; [apply collect_returns_sequential|]. split; [exact Hst|].
  exact (proj1 (Collect_all_ok_one_finite_sample_each client0 logger0 _ upstream_ok _
          true (mkSession false) stats0 eq_refl eq_refl eq_refl eq_refl Hst
          (collect_returns_sequential _ _))).
Defined.

Lemma Describe_strict_subset_of_collected_witness :
  exists t o, NewTransmissionCollector client0 logger0 = Ok t /\
    all_ok upstream_ok /\ collect_returns t upstream_ok o /\
    (forall d, In d (snd (Describe t)) -> valid_for d o = 1).
Proof.
  assert (Hok : all_ok upstream_ok)
    by (unfold all_ok; split; [|split]; eexists; reflexivity).
  eexists; eexists; split; [reflexivity|]. split; [exact Hok|].
  split; [apply collect_returns_sequential|].
  exact (proj1 (Describe_strict_subset_of_collected client0 logger0 _ upstream_ok _
          eq_refl Hok (collect_returns_sequential _ _))).
Defined.

Lemma failed_query_sends_nothing_witness :
  exists t o, NewTransmissionCollector client0 logger0 = Ok t /\
    collect_returns t upstream_stats_fail o /\
    nth_error (query_fails upstream_stats_fail) 2 = Some true /\
    (forall d, In d [activeTorrents t; pausedTorrents t; downloadedBytesTotal t;
                     uploadedBytesTotal t] -> samples_for d o = 0).
Proof.
  eexists; eexists; split; [reflexivity|].
  split; [apply collect_returns_sequential|]. split; [reflexivity|].
  exact (proj1 (failed_query_sends_nothing client0 logger0 _ upstream_stats_fail _ 2 _ _
          eq_refl (collect_returns_sequential _ _) eq_refl eq_refl eq_refl)).
Defined.

Lemma stats_failure_sends_nothing_for_stats_witness :
  exists t o, NewTransmissionCollector client0 logger0 = Ok t /\
    GetSessionStats upstream_stats_fail Background = Err "connection refused" /\
    collect_returns t upstream_stats_fail o /\
    markers_for (activeTorrents t) o = 0 /\ valid_for (portOpenDesc t) o = 1.
Proof.
  eexists; eexists; split; [reflexivity|]. split; [reflexivity|].
  split; [apply collect_returns_sequential|].
  destruct (stats_failure_sends_nothing_for_stats client0 logger0 _ upstream_stats_fail _
              "connection refused" eq_refl eq_refl (collect_returns_sequential _ _))
    as (H1 & _ & H3 & _).
  split; [apply H1; left; reflexivity | apply H3; eexists; reflexivity].
Defined.

(** C2 fails on the exporter's collector: with the session-statistics query
    failing, no invalid-metric marker is sent for any of the four
    session-statistics descriptors. *)
Lemma stats_failure_markers_counterexample :
  exists t o, NewTransmissionCollector client0 logger0 = Ok t /\
    collect_returns t upstream_stats_fail o /\
    markers_for (activeTorrents t) o = 0 /\ markers_for (pausedTorrents t) o = 0 /\
    markers_for (downloadedBytesTotal t) o = 0 /\
    markers_for (uploadedBytesTotal t) o = 0.
Proof.
  eexists; eexists; split; [reflexivity|].
  split; [apply collect_returns_sequential|].
  vm_compute. repeat split.
Qed.

Lemma turtle_failure_sends_nothing_for_turtle_witness :
  exists t o, NewTransmissionCollector client0 logger0 = Ok t /\
    GetSession upstream_turtle_fail Background [SessionFieldTurtleEnabled] =
      Err "connection refused" /\
    collect_returns t upstream_turtle_fail o /\
    markers_for (turtleModeDesc t) o = 0 /\ valid_for (portOpenDesc t) o = 1.
Proof.
  eexists; eexists; split; [reflexivity|]. split; [reflexivity|].
  split; [apply collect_returns_sequential|].
  destruct (turtle_failure_sends_nothing_for_turtle client0 logger0 _ upstream_turtle_fail _
              "connection refused" eq_refl eq_refl (collect_returns_sequential _ _))
    as (_ & H2 & _ & H4 & _).
  split; [exact H2 | apply H4; eexists; reflexivity].
Defined.

(** C3 fails on the exporter's collector: with the turtle-mode query
    failing, nothing is sent for the turtle-mode descriptor, so no
    invalid-metric marker either. *)
Lemma turtle_failure_marker_counterexample :
  exists t o, NewTransmissionCollector client0 logger0 = Ok t /\
    collect_returns t upstream_turtle_fail o /\
    samples_for (turtleModeDesc t) o = 0 /\ markers_for (turtleModeDesc t) o = 0.
Proof.
  eexists; eexists; split; [reflexivity|].
  split; [apply collect_returns_sequential|].
  vm_compute. repeat split.
Qed.

Lemma port_failure_sends_nothing_for_port_witness :
  exists t o, NewTransmissionCollector client0 logger0 = Ok t /\
    IsPortOpen upstream_port_fail Background = Err "context deadline exceeded" /\
    collect_returns t upstream_port_fail o /\
    valid_for (portOpenDesc t) o = 0 /\ valid_for (turtleModeDesc t) o = 1.
Proof.
  eexists; eexists; split; [reflexivity|]. split; [reflexivity|].
  split; [apply collect_returns_sequential|].
  destruct (port_failure_sends_nothing_for_port client0 logger0 _ upstream_port_fail _
              "context deadline exceeded" eq_refl eq_refl (collect_returns_sequential _ _))
    as (_ & H2 & _ & _ & _ & H6 & _).
  split; [exact H2 | apply H6; eexists; reflexivity].
Defined.

(** C4 fails on the exporter's collector: with the port query failing, no
    valid port-open sample (of value 0.0 or any other) is sent, and no line
    is logged at warning level. *)
Lemma port_failure_no_sample_counterexample :
  exists t o, NewTransmissionCollector client0 logger0 = Ok t /\
    collect_returns t upstream_port_fail o /\
    valid_for (portOpenDesc t) o = 0 /\
    (forall kvs, ~ In (EvLog LevelWarn kvs) o).
Proof.
  eexists; eexists; split; [reflexivity|].
  split; [apply collect_returns_sequential|].
  split; [vm_compute; reflexivity|].
  intros kvs H. vm_compute in H.
  repeat destruct H as [H|H]; try discriminate H; contradiction.
Qed.

Lemma upstream_calls_have_no_deadline_witness :
  exists t o, NewTransmissionCollector client0 logger0 = Ok t /\
    collect_returns t upstream_ok o /\ In (EvCall Background QIsPortOpen) o.
Proof.
  eexists; eexists; split; [reflexivity|].
  split; [apply collect_returns_sequential|].
  exact (proj1 (upstream_calls_have_no_deadline _ upstream_ok _
          (collect_returns_sequential _ _))).
Defined.

(** C6 fails on the exporter's collector: the context of its port query
    carries no deadline. *)
Lemma port_query_no_deadline_counterexample :
  exists t o, NewTransmissionCollector client0 logger0 = Ok t /\
    collect_returns t upstream_ok o /\
    In (EvCall Background QIsPortOpen) o /\
    (forall ctx, In (EvCall ctx QIsPortOpen) o -> Deadline ctx = None).
Proof.
  eexists; eexists; split; [reflexivity|].
  split; [apply collect_returns_sequential|].
  split; [simpl; left; reflexivity|].
  intros ctx H. vm_compute in H.
  repeat destruct H as [H|H]; try discriminate H; try contradiction.
  injection H as <-. reflexivity.
Qed.

Lemma concurrent_scrapes_complete_no_deadlock_witness :
  exists t, NewTransmissionCollector client0 logger0 = Ok t /\
    exists sys', star sys_step (sys_init [(t, upstream_ok); (t, upstream_port_fail)]) sys' /\
      Forall (fun s => main_pc s = MReturned) sys'.
Proof.
  eexists; split; [reflexivity|].
  refine (proj1 (concurrent_scrapes_complete_no_deadlock _ _ _ (star_refl _ _))).
  constructor; [exists client0, logger0; reflexivity|].
  constructor; [exists client0, logger0; reflexivity|].
  constructor.
Defined.

Lemma scrapes_share_no_state_witness :
  exists t outs, NewTransmissionCollector client0 logger0 = Ok t /\
    run t [OpDescribe; OpCollect upstream_ok; OpCollect upstream_port_fail] outs t /\
    Forall2 (op_output_ok t)
      [OpDescribe; OpCollect upstream_ok; OpCollect upstream_port_fail] outs.
Proof.
  eexists; eexists; split; [reflexivity|].
  refine ((fun H => conj H (proj2 (scrapes_share_no_state _ _ _ _ H))) _).
  eapply run_describe; [reflexivity|].
  eapply run_collect; [apply collect_returns_sequential|].
  eapply run_collect; [apply collect_returns_sequential|].
  apply run_nil.
Defined.

(** * Further properties of the collector and of exporter.go *)

Section FloatExact.
Local Open Scope Z_scope.

Lemma binary_round_aux_exact : forall s mz ez,
  fexp 53 1024 (Zdigits2 (Zpos mz) + ez) = ez -> ez <= 971 ->
  binary_round_aux 53 1024 s (Zpos mz) ez loc_Exact = S754_finite s mz ez.
Proof.
  intros s mz ez Hf He. unfold binary_round_aux, shr_fexp.
  cbn [shr_record_of_loc]. rewrite Hf, Z.sub_diag.
  cbn [shr shr_m loc_of_shr_record round_nearest_even shr_record_of_loc].
  rewrite Hf, Z.sub_diag. cbn [shr shr_m].
  replace (ez <=? 1024 - 53) with true; [reflexivity|].
  symmetry; apply Z.leb_le; lia.
Qed.

Lemma binary_round_exact : forall s m, Zpos m < 2 ^ 53 ->
  float_int_value (binary_round 53 1024 s m 0) =
    Some (if s then Zneg m else Zpos m).
Proof.
  intros s m Hm. pose proof (Z.log2_nonneg (Zpos m)) as H0.
  assert (Hl : Z.log2 (Zpos m) < 53) by (apply Z.log2_lt_pow2; lia).
  unfold binary_round, shl_align.
  replace (fexp 53 1024 (Zpos (digits2_pos m) + 0) - 0) with (Z.log2 (Zpos m) + 1 - 53)
    by (unfold fexp, emin; rewrite digits2_log2; lia).
  replace (fexp 53 1024 (Zpos (digits2_pos m) + 0)) with (Z.log2 (Zpos m) + 1 - 53)
    by (unfold fexp, emin; rewrite digits2_log2; lia).
  destruct (Z.log2 (Zpos m) + 1 - 53) as [|p|p] eqn:Hd; [| lia |].
  - rewrite binary_round_aux_exact; [| | lia].
    + simpl. rewrite Pos.mul_1_r. destruct s; reflexivity.
    + cbn [Zdigits2]. rewrite digits2_log2. unfold fexp, emin. lia.
  - rewrite binary_round_aux_exact; [| | lia].
    + unfold float_int_value. rewrite iter_xO_mul, Z.mod_mul, Z.div_mul by lia.
      simpl. destruct s; reflexivity.
    + cbn [Zdigits2]. rewrite digits2_log2, iter_xO_mul, Z.log2_mul_pow2 by lia.
      unfold fexp, emin. lia.
Qed.

Lemma float64_of_Z_exact : forall z, - 2 ^ 53 < z < 2 ^ 53 ->
  float_int_value (float64_of_Z z) = Some z.
Proof.
  unfold float64_of_Z, binary_normalize. intros [|p|p] Hz.
  - reflexivity.
  - apply (binary_round_exact false). lia.
  - apply (binary_round_exact true). lia.
Qed.

End FloatExact.

Section ScheduleFacts.

Lemma subseq_snoc_r {A : Type} : forall (p o : list A) e, subseq p o -> subseq p (o ++ [e]).
Proof.
  intros p o e H; induction H; simpl; constructor; assumption.
Qed.

Lemma subseq_snoc {A : Type} : forall (p o : list A) e,
  subseq p o -> subseq (p ++ [e]) (o ++ [e]).
Proof.
  intros p o e H; induction H as [l|x l1 l2 _ IH|x l1 l2 _ IH]; simpl.
  - induction l as [|x l IH]; simpl; repeat constructor; assumption.
  - constructor; exact IH.
  - constructor; exact IH.
Qed.

Lemma step_order : forall fns s s', order_inv fns s -> step s s' -> order_inv fns s'.
Proof.
  intros fns s s' (sp & Hf & HF) Hs.
  destruct Hs as [fns' gs n o|f fs gs n o|gs n o|pc g1 g2 e es n o|pc g1 g2 n o|gs o];
    cbn [main_pc goroutines out unspawned] in *.
  - exists sp; split; assumption.
  - exists (sp ++ [f]); split; [rewrite <- app_assoc; exact Hf|].
    apply Forall2_app; [exact HF|]. constructor; [|constructor].
    exists []; split; [reflexivity | constructor].
  - exists sp; split; assumption.
  - exists sp; split; [exact Hf|].
    apply Forall2_app_inv_r in HF as (l1 & l2 & H1 & H2 & ->).
    inversion H2 as [|f g sp2 gs2 Hfg H3]; subst; destruct Hfg as (p & Hp & Hsub).
    apply Forall2_app.
    + eapply Forall2_impl; [|exact H1].
      intros a b (q & Hq & Hs); exists q; split; [exact Hq | apply subseq_snoc_r; exact Hs].
    + constructor.
      * exists (p ++ [e]); split; [simpl; rewrite <- app_assoc; exact Hp|].
        apply subseq_snoc; exact Hsub.
      * eapply Forall2_impl; [|exact H3].
        intros a b (q & Hq & Hs); exists q; split; [exact Hq | apply subseq_snoc_r; exact Hs].
  - exists sp; split; [exact Hf|].
    apply Forall2_app_inv_r in HF as (l1 & l2 & H1 & H2 & ->).
    inversion H2 as [|f g sp2 gs2 Hfg H3]; subst; destruct Hfg as (p & Hp & Hsub).
    apply Forall2_app; [exact H1|]. constructor; [|exact H3].
    exists p; split; [exact Hp | exact Hsub].
  - exists sp; split; assumption.
Qed.

Lemma star_order : forall fns s s', order_inv fns s -> star step s s' -> order_inv fns s'.
Proof. intros fns s s' Hi Hs; induction Hs; eauto using step_order. Qed.

Lemma order_done : forall o sp gs,
  Forall2 (fun f g => exists p, f = p ++ g_pending g /\ subseq p o) sp gs ->
  Forall (fun g => g = None) gs -> Forall (fun f => subseq f o) sp.
Proof.
  intros o sp gs H; induction H as [|f g sp gs Hfg _ IH]; intros HN; [constructor|].
  destruct Hfg as (p & -> & Hs). inversion HN as [|g' gs' Hg HN']; subst.
  constructor; [|exact (IH HN')].
  simpl. rewrite app_nil_r. exact Hs.
Qed.





End ScheduleFacts.

(** Whatever the interleaving of the goroutines, each sub-collection's
    events appear in the output in the order the sub-collection performs
    them. *)
Theorem Collect_keeps_program_order :
  forall t u o, collect_returns t u o ->
  Forall (fun fn => subseq fn o) (collect_fns t u).
Proof.
  intros t u o (s & Hs & Hpc & <-).
  assert (Hi : order_inv (collect_fns t u) s).
  { eapply star_order; [|exact Hs]. exists []; split; [reflexivity | constructor]. }
  destruct Hi as (sp & Hf & HF). rewrite Hpc in Hf. cbn [unspawned] in Hf.
  rewrite app_nil_r in Hf. subst sp.
  destruct (returned_complete _ _ (Collect_inv _ _ _ Hs) Hpc) as [_ HN].
  exact (order_done _ _ _ HF HN).
Qed.



Lemma is_call_must : forall d vt v, is_call (MustNewConstMetric d vt v) = false.
Proof.
  intros d vt v. unfold MustNewConstMetric. destruct (NewConstMetric d vt v []); reflexivity.
Qed.

(** With the descriptors of [NewTransmissionCollector], whatever the
    upstream answers, [Collect] never panics, and every metric it sends is a
    gauge sample without label values for one of the six descriptors. *)
Theorem Collect_never_panics :
  forall c l t u o,
  NewTransmissionCollector c l = Ok t ->
  collect_returns t u o ->
  (forall msg, ~ In (EvPanic msg) o) /\
  (forall m, In (EvEmit m) o ->
     In (metricDesc m) (catalog t) /\
     exists v, m = constMetric (metricDesc m) GaugeValue v []).
Proof.
  intros c l t u o Hnew Hret. apply new_collector in Hnew; subst t. split.
  - intros msg Hin. destruct (collect_in _ _ _ _ Hret Hin) as [H|[H|H]];
      unfold collectPortOpen, collectTurtleMode, collectSessionStats in H;
      [destruct (IsPortOpen u Background) |
       destruct (GetSession u Background [SessionFieldTurtleEnabled]) |
       destruct (GetSessionStats u Background)]; trace_event H.
  - intros m Hm. destruct (collect_in _ _ _ _ Hret Hm) as [H|[H|H]];
      unfold collectPortOpen, collectTurtleMode, collectSessionStats in H;
      [destruct (IsPortOpen u Background) |
       destruct (GetSession u Background [SessionFieldTurtleEnabled]) |
       destruct (GetSessionStats u Background)]; trace_event H;
      (split; [simpl; pick_in | eexists; reflexivity]).
Qed.

(** A scrape sends one metric for the port query and one for the
    turtle-mode query when they succeed, four for the session-statistics
    query when it succeeds, none for a failed query; and one log line per
    failed query. *)
Theorem Collect_metric_and_log_counts :
  forall c l t u o,
  NewTransmissionCollector c l = Ok t ->
  collect_returns t u o ->
  List.length (filter is_emit o) =
    (if is_err (IsPortOpen u Background) then 0 else 1) +
    (if is_err (GetSession u Background [SessionFieldTurtleEnabled]) then 0 else 1) +
    (if is_err (GetSessionStats u Background) then 0 else 4) /\
  List.length (filter is_log o) = List.length (filter (fun b => b) (query_fails u)).
Proof.
  intros c l t u o Hnew Hret. apply new_collector in Hnew; subst t.
  rewrite !(collect_count _ _ _ _ Hret). unfold query_fails.
  unfold collectPortOpen, collectTurtleMode, collectSessionStats.
  destruct (IsPortOpen u Background), (GetSession u Background [SessionFieldTurtleEnabled]),
    (GetSessionStats u Background); vm_compute; split; reflexivity.
Qed.

(** Each scrape makes exactly three upstream calls, one of each query, all
    with [context.Background()]. *)
Theorem Collect_calls_each_query_once :
  forall t u o, collect_returns t u o ->
  Permutation (filter is_call o)
    [EvCall Background QIsPortOpen;
     EvCall Background (QGetSession [SessionFieldTurtleEnabled]);
     EvCall Background QGetSessionStats].
Proof.
  intros t u o Hret. eapply Permutation_trans; [apply collect_filter; exact Hret|].
  unfold collectPortOpen, collectTurtleMode, collectSessionStats.
  destruct (IsPortOpen u Background), (GetSession u Background [SessionFieldTurtleEnabled]),
    (GetSessionStats u Background); cbn [filter]; rewrite ?is_call_must;
    cbn [is_call app]; apply Permutation_refl.
Qed.

(** A session-statistics counter of magnitude below 2^53 is sent exactly:
    the gauge sent for its descriptor stands for the very integer the
    upstream reported. *)
Theorem stats_samples_exact :
  forall c l t u o st,
  NewTransmissionCollector c l = Ok t ->
  GetSessionStats u Background = Ok st ->
  collect_returns t u o ->
  forall d x,
  In (d, x) [(activeTorrents t, ActiveTorrents st); (pausedTorrents t, PausedTorrents st);
             (downloadedBytesTotal t, Downloaded (AllSessions st));
             (uploadedBytesTotal t, Uploaded (AllSessions st))] ->
  (- 2 ^ 53 < x < 2 ^ 53)%Z ->
  (exists v, In (EvEmit (constMetric d GaugeValue v [])) o) /\
  (forall m, In (EvEmit m) o -> metricDesc m = d ->
     exists v, m = constMetric d GaugeValue v [] /\ float_int_value v = Some x).
Proof.
  intros c l t u o st Hnew Hst Hret d x Hin Hx.
  apply new_collector in Hnew; subst t. split.
  - simpl in Hin; repeat destruct Hin as [Hin|Hin]; try contradiction;
      injection Hin as <- <-; eexists; apply (in_collect _ _ _ _ Hret); right; right;
      unfold collectSessionStats; rewrite Hst;
      unfold MustNewConstMetric, NewConstMetric; simpl; pick_in.
  - intros m Hm Hd.
    simpl in Hin; repeat destruct Hin as [Hin|Hin]; try contradiction;
      injection Hin as <- <-;
      (destruct (collect_in _ _ _ _ Hret Hm) as [H|[H|H]];
       unfold collectPortOpen, collectTurtleMode, collectSessionStats in H;
       [destruct (IsPortOpen u Background) |
        destruct (GetSession u Background [SessionFieldTurtleEnabled]) |
        rewrite Hst in H]); trace_event H; try discriminate Hd;
      eexists; (split; [reflexivity | apply float64_of_Z_exact; exact Hx]).
Qed.

Lemma substring_all : forall s, substring 0 (String.length s) s = s.
Proof. induction s as [|a s IH]; simpl; [reflexivity | rewrite IH; reflexivity]. Qed.

Lemma HasPrefix_unix : forall p, HasPrefix ("unix://" ++ p) "unix://" = true.
Proof. intros p. unfold HasPrefix. simpl. destruct p; reflexivity. Qed.

Lemma TrimPrefix_unix : forall p, TrimPrefix ("unix://" ++ p) "unix://" = p.
Proof.
  intros p. unfold TrimPrefix. rewrite HasPrefix_unix. simpl. rewrite Nat.sub_0_r.
  apply substring_all.
Qed.

(** [newHandler] on a [unix://] URL creates the transmission client for
    [http://localhost] with one option: an HTTP client whose transport dials
    the unix socket at the rest of the URL, whatever network and address it
    is asked for. Any other URL is passed on unchanged, with no option. *)
Theorem client_target_unix_socket :
  (forall p, exists hc,
     client_target ("unix://" ++ p) = ("http://localhost", [WithHTTPClient hc]) /\
     forall network addr, DialContext (clientTransport hc) network addr = mkNetDial "unix" p) /\
  (forall turl, HasPrefix turl "unix://" = false -> client_target turl = (turl, [])).
Proof.
  split.
  - intros p. eexists; split.
    + unfold client_target. rewrite HasPrefix_unix, TrimPrefix_unix. reflexivity.
    + intros network addr. reflexivity.
  - intros turl H. unfold client_target. rewrite H. reflexivity.
Qed.


Lemma client_target_unix_socket_witness :
  HasPrefix "http://127.0.0.1:9091" "unix://" = false /\
  client_target "http://127.0.0.1:9091" = ("http://127.0.0.1:9091", []).
Proof.
  split; [reflexivity|]. apply (proj2 client_target_unix_socket). reflexivity.
Defined.


Lemma Collect_keeps_program_order_witness :
  exists t o, NewTransmissionCollector client0 logger0 = Ok t /\
    collect_returns t upstream_ok o /\
    Forall (fun fn => subseq fn o) (collect_fns t upstream_ok).
Proof.
  eexists; eexists; split; [reflexivity|].
  split; [apply collect_returns_sequential|].
  exact (Collect_keeps_program_order _ _ _ (collect_returns_sequential _ _)).
Defined.



Lemma Collect_never_panics_witness :
  exists t o, NewTransmissionCollector client0 logger0 = Ok t /\
    collect_returns t upstream_port_fail o /\
    forall msg, ~ In (EvPanic msg) o.
Proof.
  eexists; eexists; split; [reflexivity|].
  split; [apply collect_returns_sequential|].
  exact (proj1 (Collect_never_panics client0 logger0 _ upstream_port_fail _ eq_refl
                  (collect_returns_sequential _ _))).
Defined.

Lemma Collect_metric_and_log_counts_witness :
  exists t o, NewTransmissionCollector client0 logger0 = Ok t /\
    collect_returns t upstream_stats_fail o /\
    List.length (filter is_emit o) = 2 /\ List.length (filter is_log o) = 1.
Proof.
  eexists; eexists; split; [reflexivity|].
  split; [apply collect_returns_sequential|].
  exact (Collect_metric_and_log_counts client0 logger0 _ upstream_stats_fail _ eq_refl
           (collect_returns_sequential _ _)).
Defined.

Lemma Collect_calls_each_query_once_witness :
  exists t o, NewTransmissionCollector client0 logger0 = Ok t /\
    collect_returns t upstream_ok o /\
    Permutation (filter is_call o)
      [EvCall Background QIsPortOpen;
       EvCall Background (QGetSession [SessionFieldTurtleEnabled]);
       EvCall Background QGetSessionStats].
Proof.
  eexists; eexists; split; [reflexivity|].
  split; [apply collect_returns_sequential|].
  exact (Collect_calls_each_query_once _ upstream_ok _ (collect_returns_sequential _ _)).
Defined.

Lemma stats_samples_exact_witness :
  exists t o, NewTransmissionCollector client0 logger0 = Ok t /\
    collect_returns t upstream_ok o /\
    forall m, In (EvEmit m) o -> metricDesc m = activeTorrents t ->
      exists v, m = constMetric (activeTorrents t) GaugeValue v [] /\
        float_int_value v = Some 3%Z.
Proof.
  eexists; eexists; split; [reflexivity|].
  split; [apply collect_returns_sequential|].
  refine (proj2 (stats_samples_exact client0 logger0 _ upstream_ok _ stats0 eq_refl eq_refl
                   (collect_returns_sequential _ _) _ 3%Z _ _)).
  - simpl. left. reflexivity.
  - simpl. lia.
Defined.
